(** * cinema/serializers.py: seat validation and order creation

    A shallow embedding of the serializers of the cinema booking backend.
    Python integers are [Z]; the relational store is a record of tables
    (lists of rows, in insertion order); code that reads the store takes
    it as an argument, code that writes it runs in a small state and
    exception monad in which a raised exception leaves the writes made
    before it in place, as the source opens no transaction. *)

From Stdlib Require Import ZArith String Lia.
From stdpp Require Import base decidable option list relations.

Local Open Scope string_scope.
Local Open Scope Z_scope.
Local Open Scope list_scope.

(** ** The rows of cinema.models, as the serializers use them *)

(** [CinemaHallSerializer.Meta.fields]: id, name, rows, seats_in_row. *)
Record CinemaHall := {
  hall_pk : Z;
  hall_name : string;
  rows : Z;
  seats_in_row : Z
}.

(** Modelled from the spec: [CinemaHall.capacity] is a property declared in
    cinema/models.py, which is not among the sources; the data model gives
    it as "derived capacity = rows x seats_per_row", recomputed on every
    read. *)
Definition capacity (h : CinemaHall) : Z := rows h * seats_in_row h.

(** [MovieSessionSerializer.Meta.fields]: id, show_time, movie, cinema_hall.
    The hall is stored with the session, which is what the attribute chain
    [movie_session.cinema_hall.rows] reads. *)
Record MovieSession := {
  session_pk : Z;
  show_time : Z;
  movie_id : Z;
  cinema_hall : CinemaHall
}.

(** [OrderListSerializer.Meta.fields]: id, created_at (tickets is the
    reverse relation). *)
Record Order := {
  order_pk : Z;
  created_at : Z
}.

(** [TicketListSerializer.Meta.fields]: id, row, seat, movie_session; the
    order is set by [OrderCreateSerializer.create].  Foreign keys hold the
    primary key of the row they point to. *)
Record Ticket := {
  ticket_pk : Z;
  row : Z;
  seat : Z;
  movie_session_id : Z;
  order_id : Z
}.

(** The persisted state.  [unique_together] is the schema of the Ticket
    table.

    Modelled from the spec: the Ticket model (cinema/models.py) is not
    among the sources, so whether it declares the constraint is a field of
    the store; the spec asks for "a uniqueness constraint on (session, row,
    seat)" enforced by the storage layer. *)
Record Database := {
  unique_together : bool;
  movie_sessions : list MovieSession;
  orders : list Order;
  tickets : list Ticket
}.

(** ** Exceptions *)

(** [serializers.ValidationError({field: message})] and
    [serializers.ValidationError(message)]. *)
Inductive ValidationError :=
| ValidationError_dict (field message : string)
| ValidationError_str (message : string).

(** The names the specification gives to the errors of the source. *)
Definition OutOfRange_row : ValidationError :=
  ValidationError_dict "row" "Row number out of range.".
Definition OutOfRange_seat : ValidationError :=
  ValidationError_dict "seat" "Seat number out of range.".
Definition SeatTaken : ValidationError :=
  ValidationError_str "This seat is already taken.".
Definition SessionNotFound : ValidationError :=
  ValidationError_dict "movie_session" "Invalid pk - object does not exist.".

(** [OutOfRange(field)] for the two fields that have a range. *)
Definition OutOfRange (e : ValidationError) : Prop :=
  e = OutOfRange_row ∨ e = OutOfRange_seat.

(** The result of a validation routine: the value returned or the
    [ValidationError] raised. *)
Inductive result (A : Type) :=
| Ok (a : A)
| Raise (e : ValidationError).
Arguments Ok {A} a.
Arguments Raise {A} e.

(** ** Queries *)

(** [attrs]: the validated fields of one ticket, with [movie_session]
    already resolved to its row. *)
Record attrs := {
  attrs_row : Z;
  attrs_seat : Z;
  attrs_movie_session : MovieSession
}.

(** [Ticket.objects.filter(movie_session=ms, row=r, seat=s)]. *)
Definition Ticket_objects_filter (db : Database) (ms : MovieSession) (r s : Z)
  : list Ticket :=
  filter (λ t, movie_session_id t = session_pk ms ∧ row t = r ∧ seat t = s)
         (tickets db).

(** [QuerySet.exists()]. *)
Definition exists_ {A} (q : list A) : bool :=
  match q with [] => false | _ :: _ => true end.

(** [obj.tickets]: the tickets whose [movie_session] is [obj].

    Modelled from the spec: the reverse relation is named in
    cinema/models.py, which is not among the sources; the spec reads it as
    the "tickets for this session". *)
Definition session_tickets (db : Database) (obj : MovieSession) : list Ticket :=
  filter (λ t, movie_session_id t = session_pk obj) (tickets db).

(** The chained comparison [1 <= v <= hi]. *)
Definition in_range (v hi : Z) : bool := (1 <=? v) && (v <=? hi).

(** ** TicketListSerializer.validate *)
Definition TicketListSerializer_validate (db : Database) (a : attrs)
  : result attrs :=
  if negb (in_range (attrs_row a) (rows (cinema_hall (attrs_movie_session a))))
  then Raise (ValidationError_dict "row" "Row number out of range.")
  else
    if negb (in_range (attrs_seat a)
                      (seats_in_row (cinema_hall (attrs_movie_session a))))
    then Raise (ValidationError_dict "seat" "Seat number out of range.")
    else
      if exists_ (Ticket_objects_filter db (attrs_movie_session a)
                                        (attrs_row a) (attrs_seat a))
      then Raise (ValidationError_str "This seat is already taken.")
      else Ok a.

(** ** TicketCreateSerializer.validate *)
Definition TicketCreateSerializer_validate (db : Database) (a : attrs)
  : result attrs :=
  if negb (in_range (attrs_row a) (rows (cinema_hall (attrs_movie_session a))))
  then Raise (ValidationError_dict "row" "Row number out of range.")
  else
    if negb (in_range (attrs_seat a)
                      (seats_in_row (cinema_hall (attrs_movie_session a))))
    then Raise (ValidationError_dict "seat" "Seat number out of range.")
    else
      if exists_ (Ticket_objects_filter db (attrs_movie_session a)
                                        (attrs_row a) (attrs_seat a))
      then Raise (ValidationError_str "This seat is already taken.")
      else Ok a.

(** ** Derived reads of a session *)

(** [MovieSessionListSerializer.get_tickets_available]. *)
Definition get_tickets_available (db : Database) (obj : MovieSession) : Z :=
  let total_capacity := capacity (cinema_hall obj) in
  let taken_tickets_count := Z.of_nat (length (session_tickets db obj)) in
  total_capacity - taken_tickets_count.

(** [MovieSessionDetailSerializer.get_taken_places]:
    [obj.tickets.values("row", "seat")], one entry per ticket. *)
Definition get_taken_places (db : Database) (obj : MovieSession)
  : list (Z * Z) :=
  (λ t, (row t, seat t)) <$> session_tickets db obj.

(** ** Validation of the nested tickets *)

(** One ticket of the request, as it arrives: the session is named by its
    primary key. *)
Record ticket_request := {
  req_row : Z;
  req_seat : Z;
  req_movie_session : Z
}.

(** [PrimaryKeyRelatedField(queryset=MovieSession.objects.all())]: the
    session with the given primary key, if there is one. *)
Definition MovieSession_objects_get (db : Database) (pk : Z)
  : option MovieSession :=
  List.find (λ s, session_pk s =? pk) (movie_sessions db).

(** Validation of one ticket by [TicketCreateSerializer]: the fields are
    resolved, then [validate] runs on them. *)
Definition run_child_validation (db : Database) (item : ticket_request)
  : result attrs :=
  match MovieSession_objects_get db (req_movie_session item) with
  | None => Raise SessionNotFound
  | Some ms =>
      TicketCreateSerializer_validate db
        {| attrs_row := req_row item;
           attrs_seat := req_seat item;
           attrs_movie_session := ms |}
  end.

Definition error_of {A} (r : result A) : option ValidationError :=
  match r with Ok _ => None | Raise e => Some e end.

Definition value_of {A} (r : result A) : option A :=
  match r with Ok a => Some a | Raise _ => None end.

(** [any(errors)]: the entry of an item that validated is empty, and
    counts as false. *)
Definition any_ (errors : list (option ValidationError)) : bool :=
  existsb (λ e, bool_decide (is_Some e)) errors.

(** [TicketCreateSerializer(many=True)]: the framework's list serializer.
    Every item is validated on its own against the store as it is; the
    errors are collected per item, and the list is rejected when any item
    raised.  An empty list is rejected only when [allow_empty] is false. *)
Definition ListSerializer_to_internal_value
    (allow_empty : bool) (db : Database) (data : list ticket_request)
  : list attrs + list (option ValidationError) :=
  if negb allow_empty && (length data =? 0)%nat
  then inr [Some (ValidationError_str "This list may not be empty.")]
  else
    let results := run_child_validation db <$> data in
    let errors := error_of <$> results in
    if any_ errors
    then inr errors
    else inl (omap value_of results).

(** The field [tickets = TicketCreateSerializer(many=True)] of
    [OrderCreateSerializer]: no [allow_empty] argument is given, and the
    framework's default is [True]. *)
Definition OrderCreateSerializer_tickets :=
  ListSerializer_to_internal_value true.

(** ** Writes: state and exceptions *)

Inductive Exception :=
| Invalid (errors : list (option ValidationError))
| IntegrityError.

Inductive outcome (A : Type) :=
| Return (a : A)
| Raised (e : Exception).
Arguments Return {A} a.
Arguments Raised {A} e.

(** A computation on the store.  The store that comes out with [Raised] is
    the store at the point of the exception: nothing is undone. *)
Definition M (A : Type) : Type := Database → outcome A * Database.

#[export] Instance M_ret : MRet M := λ A a db, (Return a, db).
#[export] Instance M_bind : MBind M := λ A B f m db,
  match m db with
  | (Return a, db') => f a db'
  | (Raised e, db') => (Raised e, db')
  end.

Definition raise {A} (e : Exception) : M A := λ db, (Raised e, db).

(** [for x in xs: body(x)]. *)
Fixpoint for_ {A} (xs : list A) (body : A → M unit) : M unit :=
  match xs with
  | [] => mret tt
  | x :: xs' => body x ≫= λ _, for_ xs' body
  end.

(** The primary key given to a new row: one above the largest in the
    table. *)
Definition next_pk (pks : list Z) : Z := 1 + foldr Z.max 0 pks.

(** [Order.objects.create()]: the order has no field of the request;
    [created_at] is the time of the call. *)
Definition Order_objects_create (now : Z) : M Order := λ db,
  let order := {| order_pk := next_pk (order_pk <$> orders db);
                  created_at := now |} in
  (Return order,
   {| unique_together := unique_together db;
      movie_sessions := movie_sessions db;
      orders := orders db ++ [order];
      tickets := tickets db |}).

(** [Ticket.objects.create(order=order, **ticket_data)].  With the
    constraint declared (see [Database]), the store refuses a second ticket
    on the same (movie_session, row, seat) and the call raises; without it
    every ticket is written. *)
Definition Ticket_objects_create (order : Order) (ticket_data : attrs)
  : M Ticket := λ db,
  if unique_together db
     && exists_ (Ticket_objects_filter db (attrs_movie_session ticket_data)
                   (attrs_row ticket_data) (attrs_seat ticket_data))
  then (Raised IntegrityError, db)
  else
    let ticket := {| ticket_pk := next_pk (ticket_pk <$> tickets db);
                     row := attrs_row ticket_data;
                     seat := attrs_seat ticket_data;
                     movie_session_id :=
                       session_pk (attrs_movie_session ticket_data);
                     order_id := order_pk order |} in
    (Return ticket,
     {| unique_together := unique_together db;
        movie_sessions := movie_sessions db;
        orders := orders db;
        tickets := tickets db ++ [ticket] |}).

(** ** OrderCreateSerializer.create *)

(** [validated_data]: the only writable field of the serializer is
    [tickets]. *)
Record validated_data := { vd_tickets : list attrs }.

Definition OrderCreateSerializer_create (now : Z) (vd : validated_data)
  : M Order :=
  let tickets_data := vd_tickets vd in
  order ← Order_objects_create now;
  for_ tickets_data
       (λ ticket_data, Ticket_objects_create order ticket_data ≫= λ _, mret tt)
    ≫= λ _,
  mret order.

(** ** createOrder *)

(** The request as the serializer handles it: [is_valid()] validates the
    nested tickets, and only then [save()] calls [create]. *)
Definition createOrder (now : Z) (ticketRequests : list ticket_request)
  : M Order := λ db,
  match OrderCreateSerializer_tickets db ticketRequests with
  | inr errors => raise (Invalid errors) db
  | inl tickets_data =>
      OrderCreateSerializer_create now {| vd_tickets := tickets_data |} db
  end.

(** ** A concrete store: the scenario of the specification *)

Definition hall_10x15 : CinemaHall :=
  {| hall_pk := 1; hall_name := "Blue"; rows := 10; seats_in_row := 15 |}.

Definition session_1 : MovieSession :=
  {| session_pk := 1; show_time := 0; movie_id := 1;
     cinema_hall := hall_10x15 |}.

Definition db_empty (uq : bool) : Database :=
  {| unique_together := uq; movie_sessions := [session_1];
     orders := []; tickets := [] |}.

Definition req (r s : Z) : ticket_request :=
  {| req_row := r; req_seat := s; req_movie_session := 1 |}.

Definition at_ (r s : Z) : attrs :=
  {| attrs_row := r; attrs_seat := s; attrs_movie_session := session_1 |}.

(** ** Notions used in the statements *)

(** A seat is taken when some persisted ticket of the session has exactly
    this row and seat. *)
Definition taken (db : Database) (ms : MovieSession) (r s : Z) : Prop :=
  ∃ t, t ∈ tickets db ∧ movie_session_id t = session_pk ms
       ∧ row t = r ∧ seat t = s.

(** The ticket written for the request [item] under the order [o]. *)
Definition ticket_for (o : Order) (item : ticket_request) (t : Ticket) : Prop :=
  row t = req_row item ∧ seat t = req_seat item
  ∧ movie_session_id t = req_movie_session item
  ∧ order_id t = order_pk o.

(** The ticket written for the attributes [a] under the order [o]. *)
Definition ticket_of (o : Order) (a : attrs) (t : Ticket) : Prop :=
  row t = attrs_row a ∧ seat t = attrs_seat a
  ∧ movie_session_id t = session_pk (attrs_movie_session a)
  ∧ order_id t = order_pk o.

(** The loop of [create]: one [Ticket.objects.create] per item. *)
Definition create_tickets (order : Order) (tickets_data : list attrs) : M unit :=
  for_ tickets_data
       (λ ticket_data, Ticket_objects_create order ticket_data ≫= λ _, mret tt).

(** The order that [create] writes first. *)
Definition new_order (now : Z) (db : Database) : Order :=
  {| order_pk := next_pk (order_pk <$> orders db); created_at := now |}.

(** ** Further stores of the scenario *)

(** The store of the scenario after one ticket at row 5, seat 5. *)
Definition db_5_5 : Database :=
  {| unique_together := true; movie_sessions := [session_1];
     orders := [{| order_pk := 1; created_at := 7 |}];
     tickets := [{| ticket_pk := 1; row := 5; seat := 5;
                    movie_session_id := 1; order_id := 1 |}] |}.

(** A store in which a ticket sits at row 11, seat 5 of the 10-row hall:
    the seat asked for is both out of range and taken. *)
Definition db_11_5 : Database :=
  {| unique_together := false; movie_sessions := [session_1];
     orders := [{| order_pk := 1; created_at := 7 |}];
     tickets := [{| ticket_pk := 1; row := 11; seat := 5;
                    movie_session_id := 1; order_id := 1 |}] |}.

(** ** Keys and invariants of the ticket table *)

(** The columns of the uniqueness constraint, for a ticket, for the
    attributes of a validated item and for a request. *)
Definition seat_key (t : Ticket) : Z * Z * Z :=
  (movie_session_id t, row t, seat t).

Definition attrs_key (a : attrs) : Z * Z * Z :=
  (session_pk (attrs_movie_session a), attrs_row a, attrs_seat a).

Definition request_key (item : ticket_request) : Z * Z * Z :=
  (req_movie_session item, req_row item, req_seat item).

(** No two persisted tickets are on the same seat of the same session. *)
Definition no_double_booking (db : Database) : Prop :=
  NoDup (seat_key <$> tickets db).

(** Every persisted ticket names a stored session and lies inside the
    hall of that session. *)
Definition tickets_in_hall (db : Database) : Prop :=
  ∀ t, t ∈ tickets db →
    ∃ ms, MovieSession_objects_get db (movie_session_id t) = Some ms
          ∧ 1 ≤ row t ≤ rows (cinema_hall ms)
          ∧ 1 ≤ seat t ≤ seats_in_row (cinema_hall ms).

(** One request handled by the serializer, whatever its outcome. *)
Definition request_step (db db' : Database) : Prop :=
  ∃ now data r, createOrder now data db = (r, db').

(** The seats of a hall, row by row. *)
Definition hall_places (h : CinemaHall) : list (Z * Z) :=
  r ← seqZ 1 (rows h); (λ s, (r, s)) <$> seqZ 1 (seats_in_row h).

(** ** What the read serializers show *)

(** [CinemaHallSerializer]: id, name, rows, seats_in_row, capacity. *)
Record CinemaHallData := {
  ch_id : Z;
  ch_name : string;
  ch_rows : Z;
  ch_seats_in_row : Z;
  ch_capacity : Z
}.

Definition CinemaHallSerializer_data (h : CinemaHall) : CinemaHallData :=
  {| ch_id := hall_pk h; ch_name := hall_name h; ch_rows := rows h;
     ch_seats_in_row := seats_in_row h; ch_capacity := capacity h |}.

(** [MovieSessionListSerializer]: id, show_time, movie_title,
    cinema_hall_name, cinema_hall_capacity, tickets_available. *)
Record MovieSessionListData := {
  msl_id : Z;
  msl_show_time : Z;
  msl_movie_title : string;
  msl_cinema_hall_name : string;
  msl_cinema_hall_capacity : Z;
  msl_tickets_available : Z
}.







Section ReadSerializers.

(** The Movie table is not part of the store modelled here: the title
    that [source="movie.title"] reads and what [MovieListSerializer] shows
    of a movie are taken as given, by primary key. *)
Variable Movie_title : Z → string.
Variable MovieListData : Type.
Variable MovieListSerializer_data : Z → MovieListData.

Definition MovieSessionListSerializer_data (db : Database) (obj : MovieSession)
  : MovieSessionListData :=
  {| msl_id := session_pk obj;
     msl_show_time := show_time obj;
     msl_movie_title := Movie_title (movie_id obj);
     msl_cinema_hall_name := hall_name (cinema_hall obj);
     msl_cinema_hall_capacity := capacity (cinema_hall obj);
     msl_tickets_available := get_tickets_available db obj |}.

(** [MovieSessionDetailSerializer]: id, show_time, movie, cinema_hall,
    taken_places. *)
Record MovieSessionDetailData := {
  msd_id : Z;
  msd_show_time : Z;
  msd_movie : MovieListData;
  msd_cinema_hall : CinemaHallData;
  msd_taken_places : list (Z * Z)
}.

Definition MovieSessionDetailSerializer_data (db : Database)
    (obj : MovieSession) : MovieSessionDetailData :=
  {| msd_id := session_pk obj;
     msd_show_time := show_time obj;
     msd_movie := MovieListSerializer_data (movie_id obj);
     msd_cinema_hall := CinemaHallSerializer_data (cinema_hall obj);
     msd_taken_places := get_taken_places db obj |}.



End ReadSerializers.

Arguments MovieSessionDetailData : clear implicits.
Arguments MovieSessionDetailSerializer_data {MovieListData} _ db obj.


(** * Properties *)

(** ** Basic facts about the queries *)

Lemma in_range_spec (v hi : Z) : in_range v hi = true ↔ 1 ≤ v ≤ hi.
Proof. unfold in_range. rewrite andb_true_iff, !Z.leb_le. tauto. Qed.

Lemma in_range_false (v hi : Z) : in_range v hi = false ↔ ¬ (1 ≤ v ≤ hi).
Proof. rewrite <- in_range_spec. destruct (in_range v hi); naive_solver. Qed.

Lemma exists__spec {A} (q : list A) : exists_ q = true ↔ ∃ x, x ∈ q.
Proof.
  destruct q as [|x q]; simpl; split; try done.
  - intros [x Hx]. by apply not_elem_of_nil in Hx.
  - intros _. exists x. apply list_elem_of_here.
Qed.

Lemma filter_exists_taken db ms r s :
  exists_ (Ticket_objects_filter db ms r s) = true ↔ taken db ms r s.
Proof.
  rewrite exists__spec. unfold Ticket_objects_filter, taken.
  split; intros [t Ht]; exists t; rewrite list_elem_of_filter in *; tauto.
Qed.

Lemma filter_exists_free db ms r s :
  exists_ (Ticket_objects_filter db ms r s) = false ↔ ¬ taken db ms r s.
Proof.
  rewrite <- filter_exists_taken.
  destruct (exists_ _); naive_solver.
Qed.

(** The three outcomes of [TicketCreateSerializer.validate], by the checks
    in the order the source makes them. *)
Lemma validate_row_out db a :
  ¬ (1 ≤ attrs_row a ≤ rows (cinema_hall (attrs_movie_session a))) →
  TicketCreateSerializer_validate db a = Raise OutOfRange_row.
Proof.
  intros H%in_range_false. unfold TicketCreateSerializer_validate.
  by rewrite H.
Qed.

Lemma validate_seat_out db a :
  1 ≤ attrs_row a ≤ rows (cinema_hall (attrs_movie_session a)) →
  ¬ (1 ≤ attrs_seat a ≤ seats_in_row (cinema_hall (attrs_movie_session a))) →
  TicketCreateSerializer_validate db a = Raise OutOfRange_seat.
Proof.
  intros Hr%in_range_spec Hs%in_range_false.
  unfold TicketCreateSerializer_validate. by rewrite Hr, Hs.
Qed.

Lemma validate_in_range db a :
  1 ≤ attrs_row a ≤ rows (cinema_hall (attrs_movie_session a)) →
  1 ≤ attrs_seat a ≤ seats_in_row (cinema_hall (attrs_movie_session a)) →
  TicketCreateSerializer_validate db a =
    if exists_ (Ticket_objects_filter db (attrs_movie_session a)
                  (attrs_row a) (attrs_seat a))
    then Raise SeatTaken else Ok a.
Proof.
  intros Hr%in_range_spec Hs%in_range_spec.
  unfold TicketCreateSerializer_validate. by rewrite Hr, Hs.
Qed.

Lemma range_cases (v hi : Z) : 1 ≤ v ≤ hi ∨ ¬ (1 ≤ v ≤ hi).
Proof. lia. Qed.

(** [validate] returns [attrs] itself. *)
Lemma validate_Ok_inv db a a' :
  TicketCreateSerializer_validate db a = Ok a' → a' = a.
Proof.
  unfold TicketCreateSerializer_validate. repeat case_match; congruence.
Qed.

(** ** The ticket validator *)

(** C3, the claim as it is written fails: a seat outside the hall does
    not give the error on "seat" when the row is outside too.  Row 0,
    seat 0 in the 10 x 15 hall raises the error on "row". *)
Lemma seat_out_of_range_not_always_seat_error :
  ¬ (∀ db a,
       ¬ (1 ≤ attrs_seat a ≤ seats_in_row (cinema_hall (attrs_movie_session a))) →
       TicketCreateSerializer_validate db a = Raise OutOfRange_seat).
Proof.
  intros H. specialize (H (db_empty true) (at_ 0 0)).
  assert (TicketCreateSerializer_validate (db_empty true) (at_ 0 0)
          = Raise OutOfRange_row) as E by reflexivity.
  rewrite E in H. simpl in H.
  assert (Raise (A:=attrs) OutOfRange_row = Raise OutOfRange_seat) as C
    by (apply H; lia).
  discriminate C.
Qed.

(** C3, amended: [validate] raises an out-of-range error exactly when the
    row is outside [1, rows] or the seat is outside [1, seats_in_row];
    every row outside its range gives the error on "row"; every seat
    outside its range, the row being inside, gives the error on "seat";
    and in a hall with at least one row and one seat per row the corners
    (1 or rows, 1 or seats_in_row) raise no out-of-range error. *)
Theorem validate_out_of_range db ms r s :
  let a := {| attrs_row := r; attrs_seat := s; attrs_movie_session := ms |} in
  let h := cinema_hall ms in
  ((∃ e, TicketCreateSerializer_validate db a = Raise e ∧ OutOfRange e)
     ↔ ¬ (1 ≤ r ≤ rows h) ∨ ¬ (1 ≤ s ≤ seats_in_row h))
  ∧ (¬ (1 ≤ r ≤ rows h) →
     TicketCreateSerializer_validate db a = Raise OutOfRange_row)
  ∧ (1 ≤ r ≤ rows h → ¬ (1 ≤ s ≤ seats_in_row h) →
     TicketCreateSerializer_validate db a = Raise OutOfRange_seat)
  ∧ (1 ≤ rows h → 1 ≤ seats_in_row h →
     (r = 1 ∨ r = rows h) → (s = 1 ∨ s = seats_in_row h) →
     ∀ e, TicketCreateSerializer_validate db a = Raise e → ¬ OutOfRange e).
Proof.
  intros a h.
  assert (∀ e, 1 ≤ r ≤ rows h → 1 ≤ s ≤ seats_in_row h →
               TicketCreateSerializer_validate db a = Raise e →
               ¬ OutOfRange e) as Hin.
  { intros e Hr Hs. rewrite (validate_in_range db a Hr Hs).
    destruct (exists_ _); [|discriminate].
    intros [= <-] [C | C]; discriminate C. }
  split; [split|split; [|split]].
  - intros (e & He & Hoor).
    destruct (range_cases r (rows h)) as [Hr|Hr]; [|by left].
    destruct (range_cases s (seats_in_row h)) as [Hs|Hs]; [|by right].
    destruct (Hin e Hr Hs He Hoor).
  - intros H. destruct (range_cases r (rows h)) as [Hr|Hr].
    + destruct H as [H|H]; [done|].
      exists OutOfRange_seat. split; [by apply validate_seat_out | by right].
    + exists OutOfRange_row. split; [by apply validate_row_out | by left].
  - apply (validate_row_out db a).
  - apply (validate_seat_out db a).
  - intros Hrows Hseats Hr Hs e. apply Hin; lia.
Qed.

Lemma validate_out_of_range_witness :
  TicketCreateSerializer_validate (db_empty true) (at_ 11 5)
    = Raise OutOfRange_row
  ∧ TicketCreateSerializer_validate (db_empty true) (at_ 5 16)
    = Raise OutOfRange_seat
  ∧ (∀ e, TicketCreateSerializer_validate (db_empty true) (at_ 10 15)
          = Raise e → ¬ OutOfRange e).
Proof.
  split; [|split].
  - apply (validate_out_of_range (db_empty true) session_1 11 5). simpl. lia.
  - apply (validate_out_of_range (db_empty true) session_1 5 16);
      simpl; lia.
  - apply (validate_out_of_range (db_empty true) session_1 10 15);
      simpl; first [lia | by right].
Defined.

(** C4: for an in-range (row, seat), [validate] raises the seat-taken
    error when a persisted ticket of the same session has exactly this row
    and seat, and returns the attributes when there is none. *)
Theorem validate_seat_taken db a :
  1 ≤ attrs_row a ≤ rows (cinema_hall (attrs_movie_session a)) →
  1 ≤ attrs_seat a ≤ seats_in_row (cinema_hall (attrs_movie_session a)) →
  (taken db (attrs_movie_session a) (attrs_row a) (attrs_seat a) →
   TicketCreateSerializer_validate db a = Raise SeatTaken)
  ∧ (¬ taken db (attrs_movie_session a) (attrs_row a) (attrs_seat a) →
     TicketCreateSerializer_validate db a = Ok a).
Proof.
  intros Hr Hs. rewrite (validate_in_range db a Hr Hs). split.
  - intros H%filter_exists_taken. by rewrite H.
  - intros H%filter_exists_free. by rewrite H.
Qed.

Lemma validate_seat_taken_witness :
  TicketCreateSerializer_validate db_5_5 (at_ 5 5) = Raise SeatTaken
  ∧ TicketCreateSerializer_validate db_5_5 (at_ 5 6) = Ok (at_ 5 6).
Proof.
  split.
  - apply (validate_seat_taken db_5_5 (at_ 5 5)); simpl; [lia | lia |].
    eexists. split; [apply list_elem_of_here | done].
  - apply (validate_seat_taken db_5_5 (at_ 5 6)); simpl; [lia | lia |].
    intros (t & Ht & _ & _ & Hseat).
    apply list_elem_of_singleton in Ht. subst t. discriminate Hseat.
Defined.

(** C5: the range checks come before the seat-taken check.  A request
    whose row or seat is out of range gets an out-of-range error whatever
    the persisted tickets are, so also when the seat is taken; and the
    seat-taken error is raised only for a row and a seat in range. *)
Theorem validate_range_before_taken db a :
  let h := cinema_hall (attrs_movie_session a) in
  (¬ (1 ≤ attrs_row a ≤ rows h) ∨ ¬ (1 ≤ attrs_seat a ≤ seats_in_row h) →
   ∃ e, TicketCreateSerializer_validate db a = Raise e
        ∧ OutOfRange e ∧ e ≠ SeatTaken)
  ∧ (TicketCreateSerializer_validate db a = Raise SeatTaken →
     1 ≤ attrs_row a ≤ rows h ∧ 1 ≤ attrs_seat a ≤ seats_in_row h).
Proof.
  intros h.
  destruct (range_cases (attrs_row a) (rows h)) as [Hr|Hr].
  - destruct (range_cases (attrs_seat a) (seats_in_row h)) as [Hs|Hs].
    + split; [intros [H|H]; contradiction | done].
    + rewrite (validate_seat_out db a Hr Hs). split; [|discriminate].
      intros _. exists OutOfRange_seat.
      split; [done | split; [by right | discriminate]].
  - rewrite (validate_row_out db a Hr). split; [|discriminate].
    intros _. exists OutOfRange_row.
    split; [done | split; [by left | discriminate]].
Qed.

Lemma validate_range_before_taken_witness :
  taken db_11_5 session_1 11 5
  ∧ (∃ e, TicketCreateSerializer_validate db_11_5 (at_ 11 5) = Raise e
          ∧ OutOfRange e ∧ e ≠ SeatTaken)
  ∧ (1 ≤ 5 ≤ 10 ∧ 1 ≤ 5 ≤ 15).
Proof.
  split; [|split].
  - eexists. split; [apply list_elem_of_here | done].
  - apply (validate_range_before_taken db_11_5 (at_ 11 5)). simpl. lia.
  - apply (validate_range_before_taken db_5_5 (at_ 5 5)). reflexivity.
Defined.

(** C10: [TicketListSerializer.validate] and
    [TicketCreateSerializer.validate] are the same function of the
    attributes and the persisted tickets: they raise the same error or
    both return, and what they return is their argument. *)
Theorem validate_list_create_agree db a :
  TicketListSerializer_validate db a = TicketCreateSerializer_validate db a
  ∧ (∀ a', TicketListSerializer_validate db a = Ok a' → a' = a)
  ∧ (∀ a', TicketCreateSerializer_validate db a = Ok a' → a' = a).
Proof.
  assert (TicketListSerializer_validate db a
          = TicketCreateSerializer_validate db a) as E.
  { unfold TicketListSerializer_validate, TicketCreateSerializer_validate.
    repeat case_match; congruence. }
  split; [exact E|]. rewrite E.
  split; intros a'; apply validate_Ok_inv.
Qed.

Lemma validate_list_create_agree_witness :
  TicketListSerializer_validate db_5_5 (at_ 5 5)
  = TicketCreateSerializer_validate db_5_5 (at_ 5 5).
Proof. apply (validate_list_create_agree db_5_5 (at_ 5 5)). Defined.

(** ** Validation of a batch *)

Section Results.
Context {A : Type}.
Implicit Types rs : list (result A).

Lemma no_error_values rs :
  any_ (error_of <$> rs) = false →
  Forall2 (λ r a, r = Ok a) rs (omap value_of rs).
Proof.
  unfold any_. induction rs as [|[a|e] rs IH]; simpl.
  - constructor.
  - intros H. constructor; [done | by apply IH].
  - discriminate.
Qed.

Lemma some_error_raised rs :
  any_ (error_of <$> rs) = true → ∃ e, Raise e ∈ rs.
Proof.
  unfold any_. induction rs as [|[a|e] rs IH]; simpl.
  - discriminate.
  - intros [e He]%IH. exists e. by apply list_elem_of_further.
  - intros _. exists e. apply list_elem_of_here.
Qed.

End Results.

(** What the validation of the nested tickets returns: the attributes of
    every item when every item validates, and otherwise the per-item
    errors, at least one item having raised. *)
Lemma tickets_validation db data :
  match OrderCreateSerializer_tickets db data with
  | inl tickets_data =>
      Forall2 (λ item a, run_child_validation db item = Ok a) data tickets_data
  | inr errors =>
      errors = error_of <$> (run_child_validation db <$> data)
      ∧ ∃ item e, item ∈ data ∧ run_child_validation db item = Raise e
  end.
Proof.
  unfold OrderCreateSerializer_tickets, ListSerializer_to_internal_value.
  simpl negb. simpl andb.
  destruct (any_ _) eqn:E.
  - split; [done|]. apply some_error_raised in E as [e He].
    apply list_elem_of_fmap in He as (item & Heq & Hin). by exists item, e.
  - apply no_error_values in E. by apply Forall2_fmap_l in E.
Qed.

Lemma tickets_invalid db data item e :
  item ∈ data → run_child_validation db item = Raise e →
  OrderCreateSerializer_tickets db data
    = inr (error_of <$> (run_child_validation db <$> data)).
Proof.
  intros Hin Hraise. pose proof (tickets_validation db data) as H.
  destruct (OrderCreateSerializer_tickets db data) as [tds|errs].
  - apply list_elem_of_lookup in Hin as [i Hi].
    destruct (Forall2_lookup_l _ _ _ _ _ H Hi) as (a & _ & Ha). congruence.
  - by destruct H as [-> _].
Qed.

(** The primary key found is the primary key asked for. *)
Lemma MovieSession_objects_get_pk db pk ms :
  MovieSession_objects_get db pk = Some ms → session_pk ms = pk.
Proof.
  unfold MovieSession_objects_get. intros H%find_some. lia.
Qed.

(** An item that validated carries its row, seat and session unchanged. *)
Lemma run_child_validation_Ok db item a :
  run_child_validation db item = Ok a →
  attrs_row a = req_row item ∧ attrs_seat a = req_seat item
  ∧ session_pk (attrs_movie_session a) = req_movie_session item.
Proof.
  unfold run_child_validation.
  destruct (MovieSession_objects_get _ _) as [ms|] eqn:Hget; [|discriminate].
  intros H. apply validate_Ok_inv in H. subst a. simpl.
  by rewrite (MovieSession_objects_get_pk _ _ _ Hget).
Qed.

(** C6: an item of a batch is validated against the persisted tickets
    only.  When two items of a batch ask for the same in-range seat of the
    same session and no persisted ticket has it, both pass their
    validation; a batch of just these two is accepted whole. *)
Theorem batch_siblings_not_checked db (data : list ticket_request) (i j : nat)
    item ms :
  i ≠ j → data !! i = Some item → data !! j = Some item →
  MovieSession_objects_get db (req_movie_session item) = Some ms →
  1 ≤ req_row item ≤ rows (cinema_hall ms) →
  1 ≤ req_seat item ≤ seats_in_row (cinema_hall ms) →
  ¬ taken db ms (req_row item) (req_seat item) →
  let a := {| attrs_row := req_row item; attrs_seat := req_seat item;
              attrs_movie_session := ms |} in
  (run_child_validation db <$> data) !! i = Some (Ok a)
  ∧ (run_child_validation db <$> data) !! j = Some (Ok a)
  ∧ OrderCreateSerializer_tickets db [item; item] = inl [a; a].
Proof.
  intros _ Hi Hj Hget Hr Hs Hfree a.
  assert (run_child_validation db item = Ok a) as Hok.
  { unfold run_child_validation. rewrite Hget. fold a.
    rewrite (validate_in_range db a Hr Hs).
    apply filter_exists_free in Hfree. simpl. by rewrite Hfree. }
  rewrite !list_lookup_fmap, Hi, Hj. simpl. rewrite Hok.
  split; [done | split; [done|]].
  unfold OrderCreateSerializer_tickets, ListSerializer_to_internal_value.
  simpl. by rewrite Hok.
Qed.

Lemma batch_siblings_not_checked_witness :
  OrderCreateSerializer_tickets (db_empty true) [req 5 5; req 5 5]
    = inl [at_ 5 5; at_ 5 5].
Proof.
  apply (batch_siblings_not_checked (db_empty true) [req 5 5; req 5 5]
           0%nat 1%nat (req 5 5) session_1);
    try reflexivity; simpl; try lia.
  intros (t & Ht & _). by apply not_elem_of_nil in Ht.
Defined.

(** ** Writes *)

Lemma next_pk_above (pks : list Z) pk : pk ∈ pks → pk < next_pk pks.
Proof.
  unfold next_pk. induction pks as [|x pks IH]; simpl.
  - intros H. by apply not_elem_of_nil in H.
  - intros [->|H]%elem_of_cons; [lia|]. specialize (IH H). lia.
Qed.

Lemma next_pk_fresh (pks : list Z) : next_pk pks ∉ pks.
Proof. intros H%next_pk_above. lia. Qed.

Lemma Ticket_objects_create_Return order a db t db' :
  Ticket_objects_create order a db = (Return t, db') →
  ticket_of order a t
  ∧ ticket_pk t = next_pk (ticket_pk <$> tickets db)
  ∧ db' = {| unique_together := unique_together db;
             movie_sessions := movie_sessions db;
             orders := orders db;
             tickets := tickets db ++ [t] |}.
Proof.
  unfold Ticket_objects_create. case_match; [discriminate|].
  intros [= <- <-]. by repeat split.
Qed.

Lemma Ticket_objects_create_Raised order a db e db' :
  Ticket_objects_create order a db = (Raised e, db') →
  e = IntegrityError ∧ db' = db ∧ unique_together db = true
  ∧ taken db (attrs_movie_session a) (attrs_row a) (attrs_seat a).
Proof.
  unfold Ticket_objects_create. case_match eqn:E; [|discriminate].
  intros [= <- <-]. apply andb_true_iff in E as [Hu Ht].
  by apply filter_exists_taken in Ht.
Qed.

(** The loop only appends tickets.  When it returns, it has appended one
    ticket per item, in order; when it raises, it has appended the tickets
    of the items before the one the store refused, and they stay. *)
Lemma create_tickets_run order tickets_data db r db' :
  create_tickets order tickets_data db = (r, db') →
  unique_together db' = unique_together db
  ∧ movie_sessions db' = movie_sessions db
  ∧ orders db' = orders db
  ∧ ∃ new, tickets db' = tickets db ++ new
      ∧ match r with
        | Return _ => Forall2 (λ a t, ticket_of order a t) tickets_data new
        | Raised e =>
            e = IntegrityError
            ∧ ∃ done_ a rest, tickets_data = done_ ++ a :: rest
                ∧ Forall2 (λ a t, ticket_of order a t) done_ new
        end.
Proof.
  unfold create_tickets.
  revert db. induction tickets_data as [|a tds IH]; intros db; simpl.
  - intros [= <- <-]. repeat split. exists []. rewrite app_nil_r.
    split; [done | constructor].
  - unfold mbind at 1, M_bind. unfold mbind at 1, M_bind.
    destruct (Ticket_objects_create order a db) as [[t|e] db1] eqn:E.
    + apply Ticket_objects_create_Return in E as (Ht & _ & ->).
      unfold mret at 1, M_ret. intros H.
      apply IH in H as (Hu & Hm & Ho & new & Hnew & Hr). simpl in *.
      repeat split; try done. exists (t :: new).
      split; [by rewrite Hnew, <- app_assoc|].
      destruct r as [[]|e].
      * by constructor.
      * destruct Hr as (-> & done_ & a' & rest & -> & Hdone).
        split; [done|]. exists (a :: done_), a', rest.
        split; [done | by constructor].
    + apply Ticket_objects_create_Raised in E as (-> & -> & _).
      intros [= <- <-]. repeat split. exists []. rewrite app_nil_r.
      split; [done|]. split; [done|]. exists [], a, tds.
      split; [done | constructor].
Qed.

(** The primary keys the loop gives out are new and distinct. *)
Lemma create_tickets_pks order tickets_data db r db' new :
  create_tickets order tickets_data db = (r, db') →
  tickets db' = tickets db ++ new →
  NoDup (ticket_pk <$> new)
  ∧ ∀ t, t ∈ new → ticket_pk t ∉ ticket_pk <$> tickets db.
Proof.
  unfold create_tickets.
  revert db new. induction tickets_data as [|a tds IH]; intros db new; simpl.
  - intros [= <- <-] Hnew.
    assert (new = []) as ->.
    { apply (app_inv_head (tickets db)). by rewrite app_nil_r. }
    split; [constructor | intros t Ht; by apply not_elem_of_nil in Ht].
  - unfold mbind at 1, M_bind. unfold mbind at 1, M_bind.
    destruct (Ticket_objects_create order a db) as [[t|e] db1] eqn:E.
    + apply Ticket_objects_create_Return in E as (_ & Hpk & ->).
      unfold mret at 1, M_ret. intros H Hnew.
      destruct (create_tickets_run order tds _ r db' H)
        as (_ & _ & _ & new1 & Hnew1 & _).
      simpl in Hnew1. rewrite Hnew1, <- app_assoc in Hnew.
      apply app_inv_head in Hnew. subst new.
      destruct (IH _ new1 H Hnew1) as [Hnd Hfresh]. simpl in Hfresh.
      assert (ticket_pk t ∉ ticket_pk <$> tickets db) as Ht.
      { rewrite Hpk. apply next_pk_fresh. }
      split.
      * simpl. constructor; [|done].
        intros (t' & Heq & Hin)%list_elem_of_fmap.
        apply (Hfresh t' Hin). rewrite fmap_app, <- Heq.
        apply elem_of_app. right. apply list_elem_of_here.
      * intros t' [->|Hin]%elem_of_cons; [done|].
        specialize (Hfresh t' Hin). rewrite fmap_app in Hfresh.
        intros C. apply Hfresh, elem_of_app. by left.
    + apply Ticket_objects_create_Raised in E as (-> & -> & _).
      intros [= <- <-] Hnew.
      assert (new = []) as ->.
      { apply (app_inv_head (tickets db)). by rewrite app_nil_r. }
      split; [constructor | intros t Ht; by apply not_elem_of_nil in Ht].
Qed.

(** What [create] leaves in the store: the order always, since
    [Order.objects.create] comes first and nothing undoes it, and the
    tickets the loop has written. *)
Lemma create_run now vd db r db' :
  OrderCreateSerializer_create now vd db = (r, db') →
  unique_together db' = unique_together db
  ∧ movie_sessions db' = movie_sessions db
  ∧ orders db' = orders db ++ [new_order now db]
  ∧ ∃ new, tickets db' = tickets db ++ new
      ∧ NoDup (ticket_pk <$> new)
      ∧ (∀ t, t ∈ new → ticket_pk t ∉ ticket_pk <$> tickets db)
      ∧ match r with
        | Return o =>
            o = new_order now db
            ∧ Forall2 (λ a t, ticket_of o a t) (vd_tickets vd) new
        | Raised e =>
            e = IntegrityError
            ∧ ∃ done_ a rest, vd_tickets vd = done_ ++ a :: rest
                ∧ Forall2 (λ a t, ticket_of (new_order now db) a t) done_ new
        end.
Proof.
  unfold OrderCreateSerializer_create.
  unfold mbind at 1, M_bind. unfold Order_objects_create at 1.
  fold (new_order now db).
  unfold mbind at 1, M_bind.
  destruct (for_ (vd_tickets vd) _ _) as [r1 db1] eqn:E.
  change (create_tickets (new_order now db) (vd_tickets vd)
            {| unique_together := unique_together db;
               movie_sessions := movie_sessions db;
               orders := orders db ++ [new_order now db];
               tickets := tickets db |} = (r1, db1)) in E.
  pose proof (create_tickets_run _ _ _ _ _ E)
    as (Hu & Hm & Ho & new & Hnew & Hr).
  pose proof (create_tickets_pks _ _ _ _ _ new E Hnew) as [Hnd Hfresh].
  simpl in *.
  destruct r1 as [[]|e]; unfold mret, M_ret; intros [= <- <-];
    (split; [done|]); (split; [done|]); (split; [done|]);
    exists new; split_and!; try done; apply Hr.
Qed.

(** ** createOrder *)

Lemma ticket_of_for db o data tickets_data new :
  Forall2 (λ item a, run_child_validation db item = Ok a) data tickets_data →
  Forall2 (λ a t, ticket_of o a t) tickets_data new →
  Forall2 (ticket_for o) data new.
Proof.
  intros H. revert new.
  induction H as [|item a data tds Hok _ IH]; intros new Hnew.
  - inversion Hnew. constructor.
  - inversion Hnew as [|? t ? new' (Hr & Hs & Hm & Ho) Hrest]; subst.
    apply run_child_validation_Ok in Hok as (Er & Es & Em).
    constructor; [|by apply IH].
    unfold ticket_for. by rewrite <- Er, <- Es, <- Em.
Qed.

(** C1, the claim as it is written fails: [create] opens no transaction,
    so a ticket write that the store refuses leaves the order and the
    tickets written before it.  Two requests for row 5, seat 5 both pass
    validation; the second write is refused and the request fails, with one
    order and one ticket persisted. *)
Lemma createOrder_write_failure_not_rolled_back :
  ¬ (∀ now data db e db',
       createOrder now data db = (Raised e, db') →
       orders db' = orders db ∧ tickets db' = tickets db).
Proof.
  intros H.
  destruct (H 7 [req 5 5; req 5 5] (db_empty true) IntegrityError db_5_5)
    as [Ho _]; [reflexivity|].
  discriminate Ho.
Qed.

(** C1, amended: when an item of the batch fails validation, the request
    fails with the validation errors and the persisted state is the state
    before the request: no order and no ticket is written. *)
Theorem createOrder_invalid_persists_nothing now data db item e :
  item ∈ data → run_child_validation db item = Raise e →
  ∃ errors, createOrder now data db = (Raised (Invalid errors), db)
            ∧ Some e ∈ errors.
Proof.
  intros Hin Hraise.
  exists (error_of <$> (run_child_validation db <$> data)). split.
  - unfold createOrder. by rewrite (tickets_invalid db data item e).
  - apply list_elem_of_fmap. exists (Raise e). split; [done|].
    apply list_elem_of_fmap. by exists item.
Qed.

Lemma createOrder_invalid_persists_nothing_witness :
  ∃ errors,
    createOrder 7 [req 5 5; req 6 6; req 11 5] (db_empty true)
      = (Raised (Invalid errors), db_empty true)
    ∧ Some OutOfRange_row ∈ errors.
Proof.
  apply (createOrder_invalid_persists_nothing 7
           [req 5 5; req 6 6; req 11 5] (db_empty true) (req 11 5)).
  - do 2 apply list_elem_of_further. apply list_elem_of_here.
  - reflexivity.
Defined.

(** C2, the claim as it is written fails: the nested serializer is
    declared without [allow_empty=False], so the empty list of tickets is
    valid and [create] writes an order with no ticket. *)
Lemma createOrder_empty_succeeds :
  createOrder 7 [] (db_empty true)
  = (Return {| order_pk := 1; created_at := 7 |},
     {| unique_together := true; movie_sessions := [session_1];
        orders := [{| order_pk := 1; created_at := 7 |}];
        tickets := [] |}).
Proof. reflexivity. Qed.

(** C2, amended: for the empty sequence of ticket requests createOrder
    succeeds; it persists exactly one order and no ticket, and when every
    persisted ticket refers to a persisted order, no ticket belongs to the
    new order. *)
Theorem createOrder_empty now db :
  createOrder now [] db
  = (Return (new_order now db),
     {| unique_together := unique_together db;
        movie_sessions := movie_sessions db;
        orders := orders db ++ [new_order now db];
        tickets := tickets db |})
  ∧ ((∀ t, t ∈ tickets db → order_id t ∈ order_pk <$> orders db) →
     filter (λ t, order_id t = order_pk (new_order now db)) (tickets db) = []).
Proof.
  split; [reflexivity|].
  intros Hfk. induction (tickets db) as [|t ts IH]; [done|].
  rewrite filter_cons_False.
  - apply IH. intros t' Ht'. apply Hfk. by apply list_elem_of_further.
  - intros Heq. apply (next_pk_fresh (order_pk <$> orders db)).
    change (next_pk (order_pk <$> orders db))
      with (order_pk (new_order now db)).
    rewrite <- Heq. apply Hfk, list_elem_of_here.
Qed.

Lemma createOrder_empty_witness :
  filter (λ t, order_id t = order_pk (new_order 8 db_5_5)) (tickets db_5_5)
  = [].
Proof.
  apply (createOrder_empty 8 db_5_5).
  intros t ->%list_elem_of_singleton. apply list_elem_of_here.
Defined.

(** C9, the claim as it is written fails in its last part: a request
    that fails at a ticket write has persisted rows.  Of three requests
    the third repeats the seat of the first: the request fails, and one
    order and two tickets are persisted. *)
Lemma createOrder_failure_persists_rows :
  createOrder 7 [req 5 5; req 6 6; req 5 5] (db_empty true)
  = (Raised IntegrityError,
     {| unique_together := true; movie_sessions := [session_1];
        orders := [{| order_pk := 1; created_at := 7 |}];
        tickets := [{| ticket_pk := 1; row := 5; seat := 5;
                       movie_session_id := 1; order_id := 1 |};
                    {| ticket_pk := 2; row := 6; seat := 6;
                       movie_session_id := 1; order_id := 1 |}] |}).
Proof. reflexivity. Qed.

(** C9, amended: when createOrder succeeds on n ticket requests, exactly
    one order is added, with a primary key no persisted order has, and
    exactly n tickets are added, with distinct primary keys no persisted
    ticket has, the i-th carrying the row, seat and session of the i-th
    request and referring to the new order; the rows that were persisted
    are all still there, unchanged and in place.  When createOrder fails
    in validation, the persisted state is unchanged. *)
Theorem createOrder_effect now data db db' :
  (∀ o, createOrder now data db = (Return o, db') →
     o = new_order now db
     ∧ (order_pk o ∉ order_pk <$> orders db)
     ∧ orders db' = orders db ++ [o]
     ∧ (∃ new, tickets db' = tickets db ++ new
          ∧ length new = length data
          ∧ Forall2 (ticket_for o) data new
          ∧ NoDup (ticket_pk <$> new)
          ∧ ∀ t, t ∈ new → ticket_pk t ∉ ticket_pk <$> tickets db)
     ∧ movie_sessions db' = movie_sessions db
     ∧ unique_together db' = unique_together db)
  ∧ (∀ errors, createOrder now data db = (Raised (Invalid errors), db') →
     db' = db).
Proof.
  unfold createOrder.
  pose proof (tickets_validation db data) as Hv.
  destruct (OrderCreateSerializer_tickets db data) as [tds|errs]; split.
  - intros o H.
    apply create_run in H
      as (Hu & Hm & Ho & new & Hnew & Hnd & Hfresh & -> & Hr).
    simpl in Hr. pose proof (ticket_of_for _ _ _ _ _ Hv Hr) as Hfor.
    split_and!; try done.
    + apply next_pk_fresh.
    + exists new. split_and!; try done.
      symmetry. by eapply Forall2_length.
  - intros errors H. apply create_run in H as (_ & _ & _ & ? & _ & _ & _ & C & _).
    discriminate C.
  - intros o. discriminate.
  - by intros errors [= _ <-].
Qed.

Lemma createOrder_effect_witness :
  (orders db_5_5 = orders (db_empty true) ++ [new_order 7 (db_empty true)])
  ∧ (db_empty true = db_empty true).
Proof.
  split.
  - apply (createOrder_effect 7 [req 5 5] (db_empty true) db_5_5).
    reflexivity.
  - apply (proj2 (createOrder_effect 7 [req 11 5] (db_empty true)
                    (db_empty true))
             [Some OutOfRange_row]).
    reflexivity.
Defined.

(** What a failed ticket write leaves: the new order, and the tickets of
    the items before the refused one. *)
Lemma createOrder_write_failure now data db db' :
  createOrder now data db = (Raised IntegrityError, db') →
  orders db' = orders db ++ [new_order now db]
  ∧ ∃ done_ item rest new,
      data = done_ ++ item :: rest
      ∧ tickets db' = tickets db ++ new
      ∧ Forall2 (ticket_for (new_order now db)) done_ new.
Proof.
  unfold createOrder.
  pose proof (tickets_validation db data) as Hv.
  destruct (OrderCreateSerializer_tickets db data) as [tds|errs];
    [|discriminate].
  intros H. apply create_run in H
    as (_ & _ & Ho & new & Hnew & _ & _ & _ & done_ & a & rest & Hd & Hr).
  split; [done|]. simpl in Hd. subst tds.
  apply Forall2_app_inv_r in Hv as (data1 & data2 & Hv1 & Hv2 & ->).
  inversion Hv2 as [|item ? data3 ? _ _]; subst.
  exists data1, item, data3, new. split_and!; try done.
  by eapply ticket_of_for.
Qed.

(** ** Derived reads *)

Lemma session_tickets_new o data new pk :
  Forall2 (ticket_for o) data new →
  length (filter (λ t, movie_session_id t = pk) new)
  = length (filter (λ item, req_movie_session item = pk) data).
Proof.
  induction 1 as [|item t data new (_ & _ & Hm & _) _ IH]; [done|].
  rewrite !filter_cons, Hm. case_decide; simpl; by rewrite IH.
Qed.

(** C7: [tickets_available] is the capacity of the hall minus the number
    of persisted tickets of the session, read from the store at the call.
    After a successful createOrder it has dropped by the number of
    requests for the session; so after k tickets are created for a session
    of capacity C without tickets, it is C - k. *)
Theorem tickets_available_spec db obj :
  get_tickets_available db obj
  = capacity (cinema_hall obj)
    - Z.of_nat (length (filter (λ t, movie_session_id t = session_pk obj)
                               (tickets db)))
  ∧ ∀ now data o db',
      createOrder now data db = (Return o, db') →
      get_tickets_available db' obj
      = get_tickets_available db obj
        - Z.of_nat (length (filter (λ item, req_movie_session item
                                            = session_pk obj) data))
      ∧ ((∀ item, item ∈ data → req_movie_session item = session_pk obj) →
         session_tickets db obj = [] →
         get_tickets_available db' obj
         = capacity (cinema_hall obj) - Z.of_nat (length data)).
Proof.
  split; [reflexivity|]. intros now data o db' H.
  assert (get_tickets_available db' obj
          = get_tickets_available db obj
            - Z.of_nat (length (filter (λ item, req_movie_session item
                                                = session_pk obj) data))) as E.
  { unfold createOrder in H.
    pose proof (tickets_validation db data) as Hv.
    destruct (OrderCreateSerializer_tickets db data) as [tds|errs];
      [|discriminate].
    apply create_run in H as (_ & _ & _ & new & Hnew & _ & _ & -> & Hr).
    simpl in Hr. pose proof (ticket_of_for _ _ _ _ _ Hv Hr) as Hfor.
    unfold get_tickets_available, session_tickets.
    rewrite Hnew, filter_app, length_app.
    rewrite (session_tickets_new _ _ _ _ Hfor). lia. }
  split; [exact E|]. intros Hall Hnone. rewrite E.
  unfold get_tickets_available. rewrite Hnone. simpl.
  replace (filter _ data) with data; [lia|].
  clear -Hall. induction data as [|item data IH]; [done|].
  rewrite filter_cons_True by (apply Hall, list_elem_of_here).
  f_equal. apply IH. intros i Hi. by apply Hall, list_elem_of_further.
Qed.

Lemma tickets_available_spec_witness :
  get_tickets_available (db_empty true) session_1 = 150
  ∧ get_tickets_available db_5_5 session_1 = 149.
Proof.
  split; [reflexivity|].
  change 149 with (capacity (cinema_hall session_1)
                   - Z.of_nat (length [req 5 5])).
  apply (proj2 (tickets_available_spec (db_empty true) session_1)
           7 [req 5 5] {| order_pk := 1; created_at := 7 |} db_5_5).
  - reflexivity.
  - by intros item ->%list_elem_of_singleton.
  - reflexivity.
Defined.

(** C8: [taken_places] has one (row, seat) per persisted ticket of the
    session and nothing else: a pair is in it exactly when some persisted
    ticket of the session has that row and seat. *)
Theorem taken_places_spec db obj :
  get_taken_places db obj
  = (λ t, (row t, seat t))
      <$> filter (λ t, movie_session_id t = session_pk obj) (tickets db)
  ∧ (∀ r s, (r, s) ∈ get_taken_places db obj ↔ taken db obj r s)
  ∧ (∀ t, t ∈ tickets db → movie_session_id t = session_pk obj →
          (row t, seat t) ∈ get_taken_places db obj).
Proof.
  assert (∀ r s, (r, s) ∈ get_taken_places db obj ↔ taken db obj r s) as H.
  { intros r s. unfold get_taken_places, session_tickets, taken.
    rewrite list_elem_of_fmap. split.
    - intros (t & [= -> ->] & Ht). apply list_elem_of_filter in Ht as [Hm Ht].
      by exists t.
    - intros (t & Ht & Hm & <- & <-). exists t.
      split; [done|]. by apply list_elem_of_filter. }
  split; [reflexivity|]. split; [exact H|].
  intros t Ht Hm. apply H. by exists t.
Qed.

Lemma taken_places_spec_witness :
  (5, 5) ∈ get_taken_places db_5_5 session_1.
Proof.
  apply (proj2 (proj2 (taken_places_spec db_5_5 session_1))
           {| ticket_pk := 1; row := 5; seat := 5;
              movie_session_id := 1; order_id := 1 |}).
  - apply list_elem_of_here.
  - reflexivity.
Defined.

(** ** The scenario of the specification *)

(** Hall of 10 rows of 15 seats: 150 tickets available with no ticket
    sold; an order of one ticket at row 5, seat 5 leaves 149 and the taken
    place (5, 5); a second request for that seat is refused as taken and
    changes nothing; a request for row 11 is refused as out of range and
    persists nothing. *)
Example scenario_10x15 :
  get_tickets_available (db_empty true) session_1 = 150
  ∧ createOrder 7 [req 5 5] (db_empty true)
    = (Return {| order_pk := 1; created_at := 7 |}, db_5_5)
  ∧ get_tickets_available db_5_5 session_1 = 149
  ∧ get_taken_places db_5_5 session_1 = [(5, 5)]
  ∧ createOrder 8 [req 5 5] db_5_5
    = (Raised (Invalid [Some SeatTaken]), db_5_5)
  ∧ createOrder 7 [req 11 5] (db_empty true)
    = (Raised (Invalid [Some OutOfRange_row]), db_empty true).
Proof. repeat split. Qed.

(** * Further properties of the serializers *)

(** ** Validation reads only the seat it is asked about *)

Lemma validate_ext db1 db2 a :
  (taken db1 (attrs_movie_session a) (attrs_row a) (attrs_seat a)
   ↔ taken db2 (attrs_movie_session a) (attrs_row a) (attrs_seat a)) →
  TicketCreateSerializer_validate db1 a = TicketCreateSerializer_validate db2 a.
Proof.
  intros H. unfold TicketCreateSerializer_validate.
  destruct (exists_ (Ticket_objects_filter db1 _ _ _)) eqn:E1;
    destruct (exists_ (Ticket_objects_filter db2 _ _ _)) eqn:E2; try done.
  - apply filter_exists_taken in E1. apply filter_exists_free in E2. tauto.
  - apply filter_exists_free in E1. apply filter_exists_taken in E2. tauto.
Qed.

Lemma taken_key db ms r s :
  taken db ms r s ↔ (session_pk ms, r, s) ∈ seat_key <$> tickets db.
Proof.
  unfold taken. rewrite list_elem_of_fmap. unfold seat_key.
  split.
  - intros (t & Ht & <- & <- & <-). by exists t.
  - intros (t & [= -> -> ->] & Ht). by exists t.
Qed.

(** What a validated item is: its session is the stored one with the
    primary key of the request, its row and seat are those of the request
    and lie in the hall, and no persisted ticket has the seat. *)
Lemma run_child_validation_Ok_inv db item a :
  run_child_validation db item = Ok a →
  MovieSession_objects_get db (req_movie_session item)
    = Some (attrs_movie_session a)
  ∧ attrs_row a = req_row item ∧ attrs_seat a = req_seat item
  ∧ 1 ≤ attrs_row a ≤ rows (cinema_hall (attrs_movie_session a))
  ∧ 1 ≤ attrs_seat a ≤ seats_in_row (cinema_hall (attrs_movie_session a))
  ∧ ¬ taken db (attrs_movie_session a) (attrs_row a) (attrs_seat a).
Proof.
  unfold run_child_validation.
  destruct (MovieSession_objects_get _ _) as [ms|] eqn:Hget; [|discriminate].
  intros H. pose proof (validate_Ok_inv _ _ _ H) as ->. simpl.
  set (a := {| attrs_row := req_row item; attrs_seat := req_seat item;
               attrs_movie_session := ms |}) in *.
  assert (1 ≤ req_row item ≤ rows (cinema_hall ms)) as Hr.
  { destruct (range_cases (req_row item) (rows (cinema_hall ms))) as [|C];
      [done|]. by rewrite (validate_row_out db a C) in H. }
  assert (1 ≤ req_seat item ≤ seats_in_row (cinema_hall ms)) as Hs.
  { destruct (range_cases (req_seat item) (seats_in_row (cinema_hall ms)))
      as [|C]; [done|]. by rewrite (validate_seat_out db a Hr C) in H. }
  do 3 (split; [done|]). do 2 (split; [done|]).
  intros Ht%filter_exists_taken.
  rewrite (validate_in_range db a Hr Hs) in H. simpl in H, Ht.
  by rewrite Ht in H.
Qed.

Lemma run_child_validation_key db item a :
  run_child_validation db item = Ok a → attrs_key a = request_key item.
Proof.
  intros H. pose proof (run_child_validation_Ok _ _ _ H) as (Er & Es & Em).
  unfold attrs_key, request_key. by rewrite Er, Es, Em.
Qed.

(** ** What a request writes *)

Lemma MovieSession_objects_get_sessions db db' pk :
  movie_sessions db' = movie_sessions db →
  MovieSession_objects_get db' pk = MovieSession_objects_get db pk.
Proof. unfold MovieSession_objects_get. by intros ->. Qed.

(** Whatever its outcome, a request appends tickets only: one for each
    item of a prefix of the batch, every item of which validated against
    the store as it was before the request.  The prefix is the whole batch
    when the request returns. *)
Lemma createOrder_written now data db r db' :
  createOrder now data db = (r, db') →
  unique_together db' = unique_together db
  ∧ movie_sessions db' = movie_sessions db
  ∧ ∃ written rest new,
      data = written ++ rest
      ∧ tickets db' = tickets db ++ new
      ∧ Forall2 (ticket_for (new_order now db)) written new
      ∧ Forall (λ item, ∃ a, run_child_validation db item = Ok a) written
      ∧ (∀ o, r = Return o → rest = []).
Proof.
  unfold createOrder.
  pose proof (tickets_validation db data) as Hv.
  destruct (OrderCreateSerializer_tickets db data) as [tds|errs].
  - intros H. apply create_run in H
      as (Hu & Hm & _ & new & Hnew & _ & _ & Hr).
    do 2 (split; [done|]).
    assert (Forall (λ item, ∃ a, run_child_validation db item = Ok a) data)
      as Hall.
    { clear -Hv. induction Hv; constructor; eauto. }
    destruct r as [o|e].
    + destruct Hr as [-> Hr]. simpl in Hr.
      exists data, [], new. rewrite app_nil_r. split_and!; try done.
      by eapply ticket_of_for.
    + destruct Hr as (_ & done_ & a & rest & Hd & Hr). simpl in Hd. subst tds.
      apply Forall2_app_inv_r in Hv as (data1 & data2 & Hv1 & Hv2 & ->).
      exists data1, data2, new. split_and!; try done.
      * by eapply ticket_of_for.
      * by apply Forall_app in Hall as [? _].
  - intros [= <- <-]. do 2 (split; [done|]).
    exists [], data, []. rewrite app_nil_r.
    split_and!; try done; constructor.
Qed.

(** The keys of the tickets written are the keys of the items they were
    written for. *)
Lemma ticket_for_keys o written new :
  Forall2 (ticket_for o) written new →
  seat_key <$> new = request_key <$> written.
Proof.
  induction 1 as [|item t ? ? (Hr & Hs & Hm & _) _ IH]; [done|].
  rewrite !fmap_cons, IH. unfold seat_key, request_key.
  by rewrite Hr, Hs, Hm.
Qed.

(** X1: a request that names a session the store does not have is
    rejected with the error on "movie_session", and nothing is written. *)
Theorem createOrder_unknown_session now data db item :
  item ∈ data →
  (∀ ms, ms ∈ movie_sessions db → session_pk ms ≠ req_movie_session item) →
  ∃ errors, createOrder now data db = (Raised (Invalid errors), db)
            ∧ Some SessionNotFound ∈ errors.
Proof.
  intros Hin Hno.
  assert (run_child_validation db item = Raise SessionNotFound) as Hraise.
  { unfold run_child_validation, MovieSession_objects_get.
    destruct (List.find _ _) as [ms|] eqn:E; [|done].
    apply find_some in E as [Hms Hpk]. apply list_elem_of_In in Hms.
    destruct (Hno ms Hms). lia. }
  exists (error_of <$> (run_child_validation db <$> data)). split.
  - unfold createOrder. by rewrite (tickets_invalid db data item _ Hin Hraise).
  - apply list_elem_of_fmap. exists (Raise SessionNotFound). split; [done|].
    apply list_elem_of_fmap. by exists item.
Qed.

Lemma createOrder_unknown_session_witness :
  ∃ errors,
    createOrder 7 [req 5 5; {| req_row := 1; req_seat := 1;
                               req_movie_session := 2 |}] (db_empty true)
      = (Raised (Invalid errors), db_empty true)
    ∧ Some SessionNotFound ∈ errors.
Proof.
  apply (createOrder_unknown_session 7 _ (db_empty true)
           {| req_row := 1; req_seat := 1; req_movie_session := 2 |}).
  - apply list_elem_of_further, list_elem_of_here.
  - intros ms ->%list_elem_of_singleton. discriminate.
Defined.



(** X3: a request changes the validation of a seat only if it asked for
    that seat.  Whatever the outcome of the request, attributes whose
    (session, row, seat) is not that of an item of the batch validate
    after it as they did before. *)
Theorem createOrder_other_seats now data db r db' a :
  createOrder now data db = (r, db') →
  attrs_key a ∉ request_key <$> data →
  TicketCreateSerializer_validate db' a = TicketCreateSerializer_validate db a.
Proof.
  intros H Hkey.
  destruct (createOrder_written _ _ _ _ _ H)
    as (_ & _ & written & rest & new & Hd & Hnew & Hfor & _ & _).
  apply validate_ext. rewrite !taken_key, Hnew, fmap_app, elem_of_app.
  split; [|by left]. intros [?|Hin]; [done|].
  destruct Hkey. rewrite Hd, fmap_app, elem_of_app. left.
  by rewrite <- (ticket_for_keys _ _ _ Hfor).
Qed.

Lemma createOrder_other_seats_witness :
  TicketCreateSerializer_validate db_5_5 (at_ 5 6)
  = TicketCreateSerializer_validate (db_empty true) (at_ 5 6).
Proof.
  apply (createOrder_other_seats 7 [req 5 5] (db_empty true)
           (Return {| order_pk := 1; created_at := 7 |}) db_5_5 (at_ 5 6)).
  - reflexivity.
  - intros [=]%list_elem_of_singleton.
Defined.




(** ** Invariants of the ticket table *)

Lemma tickets_in_hall_step now data db r db' :
  tickets_in_hall db →
  createOrder now data db = (r, db') →
  tickets_in_hall db'.
Proof.
  intros Hinv H.
  destruct (createOrder_written _ _ _ _ _ H)
    as (_ & Hm & written & rest & new & _ & Hnew & Hfor & Hall & _).
  intros t. rewrite Hnew, elem_of_app.
  rewrite (MovieSession_objects_get_sessions db db' _ Hm).
  intros [Ht|Ht]; [by apply Hinv|].
  apply list_elem_of_lookup in Ht as [i Hi].
  destruct (Forall2_lookup_r _ _ _ _ _ Hfor Hi)
    as (item & Hitem & Hr & Hs & Hms & _).
  rewrite Forall_forall in Hall.
  destruct (Hall item (list_elem_of_lookup_2 _ _ _ Hitem)) as [a Ha].
  apply run_child_validation_Ok_inv in Ha as (Hget & Er & Es & Hra & Hsa & _).
  exists (attrs_movie_session a). rewrite Hms, Hr, Hs, <- Er, <- Es.
  split; [done|]. by split.
Qed.

(** X5: a request never writes a ticket outside a hall or for a session
    the store does not have.  If every persisted ticket names a stored
    session and lies inside its hall, the same holds after the request,
    whatever its outcome. *)
Theorem createOrder_tickets_in_hall now data db r db' :
  tickets_in_hall db →
  createOrder now data db = (r, db') →
  tickets_in_hall db'.
Proof. apply tickets_in_hall_step. Qed.

Lemma createOrder_tickets_in_hall_witness : tickets_in_hall db_5_5.
Proof.
  apply (createOrder_tickets_in_hall 7 [req 5 5] (db_empty true)
           (Return {| order_pk := 1; created_at := 7 |}) db_5_5).
  - intros t Ht. by apply not_elem_of_nil in Ht.
  - reflexivity.
Defined.

(** [create] is the write of the order followed by the loop over the
    tickets; the order it returns is the one it wrote. *)
Lemma create_unfold now vd db r db' :
  OrderCreateSerializer_create now vd db = (r, db') →
  ∃ r1,
    create_tickets (new_order now db) (vd_tickets vd)
      {| unique_together := unique_together db;
         movie_sessions := movie_sessions db;
         orders := orders db ++ [new_order now db];
         tickets := tickets db |} = (r1, db')
    ∧ r = match r1 with
          | Return _ => Return (new_order now db)
          | Raised e => Raised e
          end.
Proof.
  unfold OrderCreateSerializer_create.
  unfold mbind at 1, M_bind. unfold Order_objects_create at 1.
  fold (new_order now db). unfold mbind at 1, M_bind.
  destruct (for_ (vd_tickets vd) _ _) as [r1 db1] eqn:E.
  exists r1. destruct r1 as [[]|e]; unfold mret, M_ret in *;
    simplify_eq; by split.
Qed.

Lemma create_fold now vd db r1 db' :
  create_tickets (new_order now db) (vd_tickets vd)
    {| unique_together := unique_together db;
       movie_sessions := movie_sessions db;
       orders := orders db ++ [new_order now db];
       tickets := tickets db |} = (r1, db') →
  OrderCreateSerializer_create now vd db
  = (match r1 with
     | Return _ => Return (new_order now db)
     | Raised e => Raised e
     end, db').
Proof.
  intros E.
  destruct (OrderCreateSerializer_create now vd db) as [r db2] eqn:E2.
  apply create_unfold in E2 as (r1' & E' & ->).
  rewrite E in E'. by simplify_eq.
Qed.

Lemma create_tickets_cons order a tds db :
  create_tickets order (a :: tds) db
  = match Ticket_objects_create order a db with
    | (Return _, db1) => create_tickets order tds db1
    | (Raised e, db1) => (Raised e, db1)
    end.
Proof.
  unfold create_tickets. simpl. unfold mbind at 1, M_bind.
  unfold mbind at 1, M_bind.
  by destruct (Ticket_objects_create order a db) as [[t|e] db1].
Qed.

(** A ticket is written on a free seat when the constraint is declared. *)
Lemma Ticket_objects_create_free order a db t db' :
  Ticket_objects_create order a db = (Return t, db') →
  unique_together db = true →
  attrs_key a ∉ seat_key <$> tickets db.
Proof.
  unfold Ticket_objects_create. intros H Hu. rewrite Hu in H. simpl in H.
  destruct (exists_ _) eqn:E; [discriminate|].
  apply filter_exists_free in E. by rewrite taken_key in E.
Qed.

Lemma Ticket_objects_create_on_free order a db :
  attrs_key a ∉ seat_key <$> tickets db ∨ unique_together db = false →
  ∃ t db', Ticket_objects_create order a db = (Return t, db').
Proof.
  intros H. unfold Ticket_objects_create.
  destruct (unique_together db && exists_ _) eqn:E; [|by eexists _, _].
  apply andb_true_iff in E as [Hu Ht].
  destruct H as [H|H]; [|congruence].
  apply filter_exists_taken in Ht. by rewrite taken_key in Ht.
Qed.

Lemma ticket_of_key o a t : ticket_of o a t → seat_key t = attrs_key a.
Proof.
  intros (Hr & Hs & Hm & _). unfold seat_key, attrs_key.
  by rewrite Hr, Hs, Hm.
Qed.

Lemma create_tickets_no_double order tds db r db' :
  unique_together db = true → no_double_booking db →
  create_tickets order tds db = (r, db') →
  no_double_booking db'.
Proof.
  revert db. induction tds as [|a tds IH]; intros db Hu Hnd.
  - by intros [= _ <-].
  - rewrite create_tickets_cons.
    destruct (Ticket_objects_create order a db) as [[t|e] db1] eqn:E.
    + pose proof (Ticket_objects_create_free _ _ _ _ _ E Hu) as Hfree.
      apply Ticket_objects_create_Return in E as (Hof & _ & ->).
      apply IH; [done|]. unfold no_double_booking. simpl.
      rewrite fmap_app. apply NoDup_app. split; [done|]. split.
      * intros k Hk ->%list_elem_of_singleton.
        by rewrite (ticket_of_key _ _ _ Hof) in Hk.
      * apply NoDup_singleton.
    + apply Ticket_objects_create_Raised in E as (_ & -> & _).
      by intros [= _ <-].
Qed.

Lemma no_double_booking_step now data db r db' :
  unique_together db = true → no_double_booking db →
  createOrder now data db = (r, db') →
  no_double_booking db'.
Proof.
  intros Hu Hnd. unfold createOrder.
  destruct (OrderCreateSerializer_tickets db data) as [tds|errs].
  - intros (r1 & H & _)%create_unfold.
    by apply create_tickets_no_double in H.
  - by intros [= _ <-].
Qed.



(** The loop returns when every item is on a seat that no ticket has and
    that no other item of the list asks for, or when the store has no
    constraint. *)
Lemma create_tickets_returns order tds db :
  (NoDup (attrs_key <$> tds)
   ∧ ∀ a, a ∈ tds → attrs_key a ∉ seat_key <$> tickets db)
  ∨ unique_together db = false →
  ∃ db', create_tickets order tds db = (Return tt, db').
Proof.
  revert db. induction tds as [|a tds IH]; intros db H.
  - by exists db.
  - rewrite create_tickets_cons.
    destruct (Ticket_objects_create_on_free order a db) as (t & db1 & E).
    { destruct H as [[_ H]|H]; [left|by right]. apply H, list_elem_of_here. }
    rewrite E. apply Ticket_objects_create_Return in E as (Hof & _ & ->).
    apply IH. simpl. destruct H as [[Hnd Hfree]|H]; [left|by right].
    rewrite fmap_cons in Hnd. apply NoDup_cons in Hnd as [Ha Hnd].
    split; [done|]. intros a' Ha'.
    rewrite fmap_app, elem_of_app. intros [Hin|Hin].
    + apply (Hfree a'); [by apply list_elem_of_further | done].
    + apply list_elem_of_singleton in Hin.
      rewrite (ticket_of_key _ _ _ Hof) in Hin. destruct Ha. rewrite <- Hin.
      by apply list_elem_of_fmap_2.
Qed.

Lemma all_valid_tickets db data :
  Forall (λ item, ∃ a, run_child_validation db item = Ok a) data →
  ∃ tds, OrderCreateSerializer_tickets db data = inl tds
         ∧ Forall2 (λ item a, run_child_validation db item = Ok a) data tds.
Proof.
  intros Hall. pose proof (tickets_validation db data) as Hv.
  destruct (OrderCreateSerializer_tickets db data) as [tds|errs]; [by exists tds|].
  destruct Hv as (_ & item & e & Hin & He).
  rewrite Forall_forall in Hall. destruct (Hall item Hin) as [a Ha]. congruence.
Qed.

Lemma validated_keys db data tds :
  Forall2 (λ item a, run_child_validation db item = Ok a) data tds →
  attrs_key <$> tds = request_key <$> data
  ∧ ∀ a, a ∈ tds → attrs_key a ∉ seat_key <$> tickets db.
Proof.
  induction 1 as [|item a data tds Ha _ [IHk IHf]].
  - split; [done|]. intros a Ha. by apply not_elem_of_nil in Ha.
  - split.
    + by rewrite !fmap_cons, IHk, (run_child_validation_key _ _ _ Ha).
    + intros a' [->|Hin]%elem_of_cons; [|by apply IHf].
      apply run_child_validation_Ok_inv in Ha as (_ & _ & _ & _ & _ & Hfree).
      by rewrite taken_key in Hfree.
Qed.

(** X7: a batch whose items all validate and ask for pairwise different
    seats is written whole, with or without the constraint: the request
    returns the new order, and if no seat had two tickets before, none has
    after. *)
Theorem createOrder_distinct_seats_returns now data db :
  Forall (λ item, ∃ a, run_child_validation db item = Ok a) data →
  NoDup (request_key <$> data) →
  ∃ db', createOrder now data db = (Return (new_order now db), db')
         ∧ (no_double_booking db → no_double_booking db').
Proof.
  intros Hall Hnd.
  destruct (all_valid_tickets _ _ Hall) as (tds & Htds & Hv).
  destruct (validated_keys _ _ _ Hv) as [Hk Hfree].
  destruct (create_tickets_returns (new_order now db) tds
              {| unique_together := unique_together db;
                 movie_sessions := movie_sessions db;
                 orders := orders db ++ [new_order now db];
                 tickets := tickets db |}) as [db' E].
  { left. by rewrite Hk. }
  apply (create_fold now {| vd_tickets := tds |}) in E.
  exists db'. assert (createOrder now data db
                      = (Return (new_order now db), db')) as Hc.
  { unfold createOrder. by rewrite Htds. }
  split; [done|]. intros Hdb.
  destruct (createOrder_written _ _ _ _ _ Hc)
    as (_ & _ & written & rest & new & Hd & Hnew & Hfor & _ & Hret).
  rewrite (Hret _ eq_refl), app_nil_r in Hd. subst written.
  unfold no_double_booking.
  rewrite Hnew, fmap_app, (ticket_for_keys _ _ _ Hfor).
  apply NoDup_app. split; [done|]. split; [|done].
  intros k Hk1 Hk2. rewrite <- Hk in Hk2.
  apply list_elem_of_fmap in Hk2 as (a & -> & Ha). by apply (Hfree a).
Qed.

Lemma createOrder_distinct_seats_returns_witness :
  ∃ db', createOrder 7 [req 5 5; req 5 6] (db_empty false)
         = (Return (new_order 7 (db_empty false)), db')
         ∧ (no_double_booking (db_empty false) → no_double_booking db').
Proof.
  apply (createOrder_distinct_seats_returns 7 [req 5 5; req 5 6]
           (db_empty false)).
  - repeat constructor; by eexists.
  - apply NoDup_cons. split; [|apply NoDup_singleton].
    intros H%list_elem_of_singleton. discriminate H.
Defined.

(** X8: [create] makes no seat check of its own.  On a store without the
    constraint every batch that validates is written whole, and when two
    items of the batch ask for the same seat the store ends with two
    tickets on it. *)
Theorem createOrder_unconstrained now (data : list ticket_request) db :
  unique_together db = false →
  Forall (λ item, ∃ a, run_child_validation db item = Ok a) data →
  ∃ db', createOrder now data db = (Return (new_order now db), db')
         ∧ ∀ (i j : nat) item, i ≠ j →
             data !! i = Some item → data !! j = Some item →
             ¬ no_double_booking db'.
Proof.
  intros Hu Hall.
  destruct (all_valid_tickets _ _ Hall) as (tds & Htds & Hv).
  destruct (create_tickets_returns (new_order now db) tds
              {| unique_together := unique_together db;
                 movie_sessions := movie_sessions db;
                 orders := orders db ++ [new_order now db];
                 tickets := tickets db |}) as [db' E]; [by right|].
  apply (create_fold now {| vd_tickets := tds |}) in E.
  exists db'. assert (createOrder now data db
                      = (Return (new_order now db), db')) as Hc.
  { unfold createOrder. by rewrite Htds. }
  split; [done|]. intros i j item Hij Hi Hj Hnd.
  destruct (createOrder_written _ _ _ _ _ Hc)
    as (_ & _ & written & rest & new & Hd & Hnew & Hfor & _ & Hret).
  rewrite (Hret _ eq_refl), app_nil_r in Hd. subst written.
  unfold no_double_booking in Hnd.
  rewrite Hnew, fmap_app, (ticket_for_keys _ _ _ Hfor) in Hnd.
  apply NoDup_app in Hnd as (_ & _ & Hnd).
  apply Hij. apply (proj1 (NoDup_alt _) Hnd i j (request_key item));
    by rewrite list_lookup_fmap, ?Hi, ?Hj.
Qed.

Lemma createOrder_unconstrained_witness :
  ∃ db', createOrder 7 [req 5 5; req 5 5] (db_empty false)
         = (Return (new_order 7 (db_empty false)), db')
         ∧ ∀ (i j : nat) item, i ≠ j →
             [req 5 5; req 5 5] !! i = Some item →
             [req 5 5; req 5 5] !! j = Some item →
             ¬ no_double_booking db'.
Proof.
  apply (createOrder_unconstrained 7 [req 5 5; req 5 5] (db_empty false)).
  - reflexivity.
  - repeat constructor; by eexists.
Defined.

(** ** Availability never goes negative *)

Lemma length_bind_fmap {A B C} (g : A → B → C) (l : list A) (k : list B) :
  length (x ← l; g x <$> k) = (length l * length k)%nat.
Proof.
  induction l as [|x l IH]; [done|].
  rewrite bind_cons, length_app, length_fmap, IH. simpl. lia.
Qed.

Lemma length_hall_places h :
  length (hall_places h) = (Z.to_nat (rows h) * Z.to_nat (seats_in_row h))%nat.
Proof. unfold hall_places. by rewrite length_bind_fmap, !length_seqZ. Qed.

Lemma elem_of_hall_places h r s :
  (r, s) ∈ hall_places h ↔ 1 ≤ r ≤ rows h ∧ 1 ≤ s ≤ seats_in_row h.
Proof.
  unfold hall_places. rewrite list_elem_of_bind. split.
  - intros (r' & (s' & [= -> ->] & Hs)%list_elem_of_fmap & Hr).
    apply elem_of_seqZ in Hs, Hr. lia.
  - intros [Hr Hs]. exists r. split.
    + apply list_elem_of_fmap. exists s. split; [done|].
      apply elem_of_seqZ. lia.
    + apply elem_of_seqZ. lia.
Qed.

(** The places of the tickets of one session are pairwise different when
    no seat has two tickets. *)
Lemma taken_places_NoDup db obj :
  no_double_booking db → NoDup (get_taken_places db obj).
Proof.
  unfold no_double_booking, get_taken_places, session_tickets.
  induction (tickets db) as [|t ts IH]; [constructor|].
  rewrite fmap_cons, NoDup_cons. intros [Ht Hnd].
  rewrite filter_cons. case_decide as Hm; [|by apply IH].
  rewrite fmap_cons. apply NoDup_cons. split; [|by apply IH].
  intros (t' & [= Hr Hs] & [Hm' Ht']%list_elem_of_filter)%list_elem_of_fmap.
  apply Ht. apply list_elem_of_fmap. exists t'. split; [|done].
  unfold seat_key. by rewrite Hr, Hs, Hm, Hm'.
Qed.

Lemma available_bounds db obj :
  no_double_booking db → tickets_in_hall db →
  MovieSession_objects_get db (session_pk obj) = Some obj →
  0 ≤ rows (cinema_hall obj) → 0 ≤ seats_in_row (cinema_hall obj) →
  0 ≤ get_tickets_available db obj ≤ capacity (cinema_hall obj).
Proof.
  intros Hnd Hin Hget Hrows Hseats.
  assert (length (get_taken_places db obj)
          ≤ length (hall_places (cinema_hall obj)))%nat as Hle.
  { apply submseteq_length, NoDup_submseteq; [by apply taken_places_NoDup|].
    intros [r s] (t & [= -> ->] & [Hm Ht]%list_elem_of_filter)%list_elem_of_fmap.
    destruct (Hin t Ht) as (ms & Hms & Hr & Hs).
    rewrite Hm, Hget in Hms. injection Hms as <-.
    by apply elem_of_hall_places. }
  unfold get_taken_places in Hle. rewrite length_fmap, length_hall_places in Hle.
  unfold get_tickets_available, capacity. simpl. nia.
Qed.

(** X9: when no seat has two tickets and every ticket lies inside the
    hall of its session, the number of available tickets of a stored
    session, in a hall whose dimensions are not negative, lies between 0
    and the capacity of the hall. *)
Theorem tickets_available_bounds db obj :
  no_double_booking db → tickets_in_hall db →
  MovieSession_objects_get db (session_pk obj) = Some obj →
  0 ≤ rows (cinema_hall obj) → 0 ≤ seats_in_row (cinema_hall obj) →
  0 ≤ get_tickets_available db obj ≤ capacity (cinema_hall obj).
Proof. apply available_bounds. Qed.

Lemma tickets_available_bounds_witness :
  0 ≤ get_tickets_available db_5_5 session_1 ≤ capacity (cinema_hall session_1).
Proof.
  apply (tickets_available_bounds db_5_5 session_1).
  - apply NoDup_singleton.
  - intros t ->%list_elem_of_singleton. exists session_1.
    split; [reflexivity|]. simpl. lia.
  - reflexivity.
  - simpl. lia.
  - simpl. lia.
Defined.

(** X10: a store that declares the constraint and starts without tickets
    is never oversold.  After any sequence of requests, returned or
    failed, no seat has two tickets, every ticket lies inside its hall,
    and every stored session in a hall of non-negative dimensions has
    between 0 and capacity tickets available. *)
Theorem requests_never_oversell db0 db :
  unique_together db0 = true → tickets db0 = [] →
  rtc request_step db0 db →
  no_double_booking db ∧ tickets_in_hall db
  ∧ ∀ obj, MovieSession_objects_get db (session_pk obj) = Some obj →
      0 ≤ rows (cinema_hall obj) → 0 ≤ seats_in_row (cinema_hall obj) →
      0 ≤ get_tickets_available db obj ≤ capacity (cinema_hall obj).
Proof.
  intros Hu Hempty Hsteps.
  assert (unique_together db = true ∧ no_double_booking db
          ∧ tickets_in_hall db) as (_ & Hnd & Hin).
  { assert (unique_together db0 = true ∧ no_double_booking db0
            ∧ tickets_in_hall db0) as Hinv.
    { unfold no_double_booking, tickets_in_hall. rewrite Hempty.
      split; [done|]. split; [constructor|].
      intros t Ht. by apply not_elem_of_nil in Ht. }
    clear Hu Hempty. induction Hsteps as [|db1 db2 db3 Hstep _ IH]; [done|].
    apply IH. destruct Hinv as (Hu & Hnd & Hin).
    destruct Hstep as (now & data & r & H).
    split_and!.
    - destruct (createOrder_written _ _ _ _ _ H) as (-> & _). done.
    - by eapply no_double_booking_step.
    - by eapply tickets_in_hall_step. }
  split; [done|]. split; [done|].
  intros obj. by apply available_bounds.
Qed.

Lemma requests_never_oversell_witness :
  no_double_booking db_5_5 ∧ tickets_in_hall db_5_5
  ∧ ∀ obj, MovieSession_objects_get db_5_5 (session_pk obj) = Some obj →
      0 ≤ rows (cinema_hall obj) → 0 ≤ seats_in_row (cinema_hall obj) →
      0 ≤ get_tickets_available db_5_5 obj ≤ capacity (cinema_hall obj).
Proof.
  apply (requests_never_oversell (db_empty true) db_5_5).
  - reflexivity.
  - reflexivity.
  - eapply rtc_l; [|eapply rtc_l; [|apply rtc_refl]].
    + exists 7, [req 5 5], (Return {| order_pk := 1; created_at := 7 |}).
      reflexivity.
    + exists 8, [req 5 5], (Raised (Invalid [Some SeatTaken])). reflexivity.
Defined.

(** ** Reading an order back *)







(** ** The detail of a session *)

(** X13: the detail of a stored session is coherent.  When no seat has
    two tickets and every ticket lies inside its hall, the taken places
    shown are pairwise different seats of the hall shown with them, and
    the number of available tickets in the list of sessions is the
    capacity shown in the detail minus the number of taken places. *)
Theorem session_detail_coherent (Movie_title : Z → string)
    {MovieListData} (MovieListSerializer_data : Z → MovieListData) db obj :
  no_double_booking db → tickets_in_hall db →
  MovieSession_objects_get db (session_pk obj) = Some obj →
  let d := MovieSessionDetailSerializer_data MovieListSerializer_data db obj in
  let l := MovieSessionListSerializer_data Movie_title db obj in
  NoDup (msd_taken_places _ d)
  ∧ (∀ r s, (r, s) ∈ msd_taken_places _ d →
            1 ≤ r ≤ ch_rows (msd_cinema_hall _ d)
            ∧ 1 ≤ s ≤ ch_seats_in_row (msd_cinema_hall _ d))
  ∧ msl_tickets_available l
    = ch_capacity (msd_cinema_hall _ d)
      - Z.of_nat (length (msd_taken_places _ d))
  ∧ msl_cinema_hall_capacity l = ch_capacity (msd_cinema_hall _ d).
Proof.
  intros Hnd Hin Hget d l. simpl. split_and!.
  - by apply taken_places_NoDup.
  - intros r s (t & [= -> ->] & [Hm Ht]%list_elem_of_filter)%list_elem_of_fmap.
    destruct (Hin t Ht) as (ms & Hms & Hr & Hs).
    rewrite Hm, Hget in Hms. by injection Hms as <-.
  - unfold get_tickets_available, get_taken_places. by rewrite length_fmap.
  - done.
Qed.

Lemma session_detail_coherent_witness :
  NoDup (get_taken_places db_5_5 session_1)
  ∧ (∀ r s, (r, s) ∈ get_taken_places db_5_5 session_1 →
            1 ≤ r ≤ 10 ∧ 1 ≤ s ≤ 15)
  ∧ get_tickets_available db_5_5 session_1
    = 150 - Z.of_nat (length (get_taken_places db_5_5 session_1))
  ∧ 150 = 150.
Proof.
  apply (session_detail_coherent (λ _, "Film") (λ pk, pk) db_5_5 session_1).
  - apply NoDup_singleton.
  - intros t ->%list_elem_of_singleton. exists session_1.
    split; [reflexivity|]. simpl. lia.
  - reflexivity.
Defined.

(** ** A refused write *)

Lemma create_tickets_refused order tds db e db' :
  create_tickets order tds db = (Raised e, db') →
  unique_together db = true
  ∧ ∃ done_ a rest new,
      tds = done_ ++ a :: rest
      ∧ tickets db' = tickets db ++ new
      ∧ Forall2 (λ a t, ticket_of order a t) done_ new
      ∧ attrs_key a ∈ seat_key <$> tickets db'.
Proof.
  revert db. induction tds as [|a tds IH]; intros db.
  - discriminate.
  - rewrite create_tickets_cons.
    destruct (Ticket_objects_create order a db) as [[t|e1] db1] eqn:E.
    + apply Ticket_objects_create_Return in E as (Hof & _ & ->).
      intros (Hu & done_ & a' & rest & new & -> & Hnew & Hfor & Hk)%IH.
      simpl in *. split; [done|].
      exists (a :: done_), a', rest, (t :: new).
      split_and!; try done.
      * by rewrite Hnew, <- app_assoc.
      * by constructor.
    + apply Ticket_objects_create_Raised in E as (_ & -> & Hu & Ht).
      intros [= <- <-]. split; [done|].
      exists [], a, tds, []. rewrite app_nil_r.
      split; [done|]. split; [done|]. split; [constructor|].
      by apply taken_key in Ht.
Qed.

(** X14: a request fails at a write only on a store that declares the
    constraint and only at an item that repeats the seat of an earlier
    item of the batch; the new order and one ticket for each item before
    the refused one are then persisted, and nothing else is written. *)
Theorem createOrder_refused_write now data db db' :
  createOrder now data db = (Raised IntegrityError, db') →
  unique_together db = true
  ∧ orders db' = orders db ++ [new_order now db]
  ∧ ∃ done_ item rest new,
      data = done_ ++ item :: rest
      ∧ request_key item ∈ request_key <$> done_
      ∧ tickets db' = tickets db ++ new
      ∧ Forall2 (ticket_for (new_order now db)) done_ new.
Proof.
  unfold createOrder.
  pose proof (tickets_validation db data) as Hv.
  destruct (OrderCreateSerializer_tickets db data) as [tds|errs];
    [|discriminate].
  intros H. pose proof (create_run _ _ _ _ _ H) as (_ & _ & Ho & _).
  apply create_unfold in H as (r1 & H & Hr1).
  destruct r1 as [[]|e]; [discriminate|]. injection Hr1 as <-.
  apply create_tickets_refused in H
    as (Hu & done_ & a & rest & new & Hd & Hnew & Hof & Hk).
  simpl in *. subst tds.
  apply Forall2_app_inv_r in Hv as (data1 & data2 & Hv1 & Hv2 & ->).
  inversion Hv2 as [|item ? data3 ? Ha _]; subst.
  pose proof (ticket_of_for _ _ _ _ _ Hv1 Hof) as Hfor.
  split; [done|]. split; [done|].
  exists data1, item, data3, new. split_and!; try done.
  rewrite <- (ticket_for_keys _ _ _ Hfor).
  rewrite <- (run_child_validation_key _ _ _ Ha).
  rewrite Hnew, fmap_app, elem_of_app in Hk. destruct Hk as [Hk|Hk]; [|done].
  apply run_child_validation_Ok_inv in Ha as (_ & _ & _ & _ & _ & Hfree).
  by rewrite taken_key in Hfree.
Qed.

Lemma createOrder_refused_write_witness :
  unique_together (db_empty true) = true
  ∧ orders db_5_5 = orders (db_empty true) ++ [new_order 7 (db_empty true)]
  ∧ ∃ done_ item rest new,
      [req 5 5; req 5 5] = done_ ++ item :: rest
      ∧ request_key item ∈ request_key <$> done_
      ∧ tickets db_5_5 = tickets (db_empty true) ++ new
      ∧ Forall2 (ticket_for (new_order 7 (db_empty true))) done_ new.
Proof.
  apply (createOrder_refused_write 7 [req 5 5; req 5 5] (db_empty true)
           db_5_5).
  reflexivity.
Defined.
